(** * Consumer-choice optima: the solvers of [optimal_consumption_app.py]
      and the indifference-curve viewer of [cobb_douglas_app.py]

    The Python programs compute with binary64 floats.  This development
    reads every float as the real number it stands for and every float
    operation as the exact real operation (no rounding, no overflow).
    What Python does on the inputs where a float operation has no real
    value is kept: a scalar division by zero raises [ZeroDivisionError],
    so the scalar code lives in the [option] monad; an array operation
    of numpy yields [inf] or [nan] there, so an array is a list of
    [Np.float], a real or one of these special values. *)

From Stdlib Require Import Reals Lra Lia List ZArith String Ascii Bool.
From Stdlib Require Import DecimalString.
Import ListNotations.

Open Scope R_scope.

(** Is the real [y] an integer? *)
Definition is_integer (y : R) : bool :=
  if Req_dec_T y (IZR (Int_part y)) then true else false.

(** ** Scalar float operations *)

Module Py.

(** The error monad of the scalar code: [None] is a raised exception. *)
Definition bind {A B : Type} (m : option A) (k : A -> option B) : option B :=
  match m with
  | Some a => k a
  | None => None
  end.

Definition ret {A : Type} (a : A) : option A := Some a.

(** [a / b] on Python floats: raises on a zero divisor. *)
Definition div (a b : R) : option R :=
  if Req_dec_T b 0 then None else Some (a / b).

(** [x ** y] on Python floats.  A positive base has the real power.
    [0.0 ** y] is [0.0] for a positive exponent, [1.0] for a zero exponent
    and raises for a negative one.  A negative base has a real value only
    for an integer exponent; otherwise Python answers with a complex number,
    which is outside this model. *)
Definition pow (x y : R) : option R :=
  if Rlt_dec 0 x then Some (Rpower x y)
  else if Req_dec_T x 0 then
    if Rlt_dec 0 y then Some 0
    else if Req_dec_T y 0 then Some 1
    else None
  else if is_integer y then Some (powerRZ x (Int_part y))
  else None.

(** [min(a, b)]: the first argument unless the second is smaller. *)
Definition min (a b : R) : R := if Rlt_dec b a then b else a.

(** [max(a, b)]: the first argument unless the second is larger. *)
Definition max (a b : R) : R := if Rlt_dec a b then b else a.

(** [abs(a)]. *)
Definition abs (a : R) : R := Rabs a.

End Py.

Notation "x <- m ;; k" := (Py.bind m (fun x => k))
  (at level 61, m at next level, right associativity).

(** ** Array entries of numpy *)

Module Np.

(** An entry of a float array: a real, an infinity with its sign, or nan.
    The model has one zero; the sign of a float zero is not kept. *)
Inductive float : Type :=
| Fin (r : R)
| Inf (negative : bool)
| NaN.

(** [a / b] on finite entries: a zero divisor gives an infinity of the
    sign of [a], and [0 / 0] gives nan (with a warning, not an exception). *)
Definition div (a b : R) : float :=
  if Req_dec_T b 0 then
    if Rlt_dec 0 a then Inf false
    else if Rlt_dec a 0 then Inf true
    else NaN
  else Fin (a / b).

(** [a / e] for a finite scalar [a] and an array entry [e]. *)
Definition div_entry (a : R) (e : float) : float :=
  match e with
  | Fin r => div a r
  | Inf _ => Fin 0
  | NaN => NaN
  end.

(** An infinity times the finite [a]: nan when [a] is zero. *)
Definition scale_inf (s : bool) (a : R) : float :=
  if Rlt_dec 0 a then Inf s
  else if Rlt_dec a 0 then Inf (negb s)
  else NaN.

(** [e1 * e2] on array entries. *)
Definition mul (e1 e2 : float) : float :=
  match e1, e2 with
  | Fin a, Fin b => Fin (a * b)
  | Fin a, Inf s => scale_inf s a
  | Inf s, Fin a => scale_inf s a
  | Inf s1, Inf s2 => Inf (xorb s1 s2)
  | _, _ => NaN
  end.

(** [x ** y] on finite entries (IEEE [pow]): the real power of a positive
    base; [0 ** y] is [0], [1] or [+inf] as [y] is positive, zero or
    negative; a negative base has a value for an integer exponent only. *)
Definition pow (x y : R) : float :=
  if Rlt_dec 0 x then Fin (Rpower x y)
  else if Req_dec_T x 0 then
    if Rlt_dec 0 y then Fin 0
    else if Req_dec_T y 0 then Fin 1
    else Inf false
  else if is_integer y then Fin (powerRZ x (Int_part y))
  else NaN.

(** [e ** y] for an array entry [e] and a finite scalar [y]. *)
Definition pow_entry (e : float) (y : R) : float :=
  match e with
  | Fin r => pow r y
  | Inf s =>
      if Req_dec_T y 0 then Fin 1
      else if Rlt_dec y 0 then Fin 0
      else if s && is_integer y && Z.odd (Int_part y) then Inf true
      else Inf false
  | NaN => if Req_dec_T y 0 then Fin 1 else NaN
  end.

(** [e >= c]: false on nan. *)
Definition ge (e : float) (c : R) : bool :=
  match e with
  | Fin r => if Rle_dec c r then true else false
  | Inf s => negb s
  | NaN => false
  end.

(** [e <= c]: false on nan. *)
Definition le (e : float) (c : R) : bool :=
  match e with
  | Fin r => if Rle_dec r c then true else false
  | Inf s => s
  | NaN => false
  end.

(** [l[mask]]: the entries of [l] at which [mask] is true. *)
Fixpoint select {A : Type} (mask : list bool) (l : list A) : list A :=
  match mask, l with
  | m :: mask', a :: l' => if m then a :: select mask' l' else select mask' l'
  | _, _ => []
  end.

(** [numpy.linspace(start, stop, num)] with the end point included:
    [num] evenly spaced samples, the last one set to [stop]. *)
Definition linspace (start stop : R) (num : nat) : list R :=
  let div := (num - 1)%nat in
  let delta := stop - start in
  let step := delta / INR div in
  let y := map (fun i => INR i * step + start) (seq 0 num) in
  if (1 <? num)%nat then removelast y ++ [stop] else y.

End Np.

(** ** Fixed-point formatting ([f"{v:.2f}"]) *)

(** The integer nearest to [r], ties to the even one. *)
Definition round_half_even (r : R) : Z :=
  let f := Int_part r in
  let d := frac_part r in
  if Rlt_dec d (1 / 2) then f
  else if Rlt_dec (1 / 2) d then (f + 1)%Z
  else if Z.even f then f else (f + 1)%Z.

(** The decimal digits of a natural number. *)
Definition decimal (n : Z) : string :=
  NilZero.string_of_uint (N.to_uint (Z.to_N n)).

(** [n] written with at least [width] digits, zeros in front. *)
Fixpoint zero_pad (width : nat) (s : string) : string :=
  match width with
  | O => s
  | S w => if (String.length s <? width)%nat then zero_pad w ("0" ++ s) else s
  end.

(** The text of a number whose scaled and rounded value is [n]:
    sign, integer digits, point, [prec] fraction digits. *)
Definition render_fixed (prec : nat) (negative : bool) (n : Z) : string :=
  let m := Z.abs n in
  let scale := (10 ^ Z.of_nat prec)%Z in
  ((if negative then "-" else "")
   ++ decimal (m / scale)
   ++ (if (0 <? prec)%nat
       then "." ++ zero_pad prec (decimal (m mod scale))
       else ""))%string.

(** [format(r, ".<prec>f")] for a finite float [r]. *)
Definition format_fixed (prec : nat) (r : R) : string :=
  render_fixed prec (if Rlt_dec r 0 then true else false)
    (round_half_even (r * IZR (10 ^ Z.of_nat prec))).

(** [format(e, ".<prec>f")] for an array entry. *)
Definition format_entry (prec : nat) (e : Np.float) : string :=
  match e with
  | Np.Fin r => format_fixed prec r
  | Np.Inf s => if s then "-inf" else "inf"
  | Np.NaN => "nan"
  end.

(** ** The solvers ([optimal_consumption_app.py], lines 47-81) *)

(** The status strings of the program. *)
Definition single : string := "single".
Definition many : string := "many".
Definition corner_x : string := "corner_x".
Definition corner_y : string := "corner_y".

(** The tolerance of the slope comparison. *)
Definition tol : R := 1 / 1000000000.

Definition cobb_douglas_opt (px py M a b : R) : option (R * R * R) :=
  sx <- Py.div a (a + b) ;;
  x <- Py.div (sx * M) px ;;
  sy <- Py.div b (a + b) ;;
  y <- Py.div (sy * M) py ;;
  xa <- Py.pow x a ;;
  yb <- Py.pow y b ;;
  let U := xa * yb in
  Py.ret (x, y, U).

Definition leontief_opt (px py M a b : R) : option (R * R * R) :=
  k <- Py.div a b ;;
  x <- Py.div M (px + py * k) ;;
  let y := k * x in
  let U := Py.min (a * x) (b * y) in
  Py.ret (x, y, U).

Definition linear_opt (px py M a b : R) : option (R * R * R * string) :=
  slope_IC <- Py.div a b ;;
  slope_BL <- Py.div px py ;;
  if Rlt_dec (Py.abs (slope_IC - slope_BL)) tol then
    mx <- Py.div M px ;;
    let U_any := a * mx in
    mx' <- Py.div M px ;;
    let x_plot := mx' / 2 in
    my <- Py.div M py ;;
    let y_plot := my / 2 in
    Py.ret (x_plot, y_plot, U_any, many)
  else if Rlt_dec slope_BL slope_IC then
    x <- Py.div M px ;;
    let y := 0 in
    let U := a * x in
    Py.ret (x, y, U, corner_x)
  else
    let x := 0 in
    y <- Py.div M py ;;
    let U := b * y in
    Py.ret (x, y, U, corner_y).



(** ** The chart ([optimal_consumption_app.py], lines 86-130) *)

(** What the program draws on the axes. *)
Inductive artist : Type :=
| Plot (xs : list R) (ys : list Np.float) (color : string)
       (label : option string)
| Scatter (xs ys : list R) (color : string) (label : string)
| Text (x y : R) (s : string).

Record figure : Type := {
  artists : list artist;
  xlim : R * R;
  ylim : R * R;
  xlabel : string;
  ylabel : string
}.

(** [(ys >= 0) & (ys <= y_max)]. *)
Definition in_range (y_max : R) (ys : list Np.float) : list bool :=
  map (fun y => Np.ge y 0 && Np.le y y_max) ys.

(** [f"IC (U={U_star:.2f})"]. *)
Definition ic_label (U_star : R) : string :=
  ("IC (U=" ++ format_fixed 2 U_star ++ ")")%string.

(** The Linear branch. *)
Definition linear_ic (x_vals : list R) (y_max alpha beta U_star : R)
  : list artist :=
  let y_ic := map (fun x => Np.div (U_star - alpha * x) beta) x_vals in
  let mask := in_range y_max y_ic in
  [Plot (Np.select mask x_vals) (Np.select mask y_ic) "green"
        (Some (ic_label U_star))].

(** The Leontief branch. *)
Definition leontief_ic (x_max y_max alpha beta U_star : R)
  : option (list artist) :=
  x_corner <- Py.div U_star alpha ;;
  y_corner <- Py.div U_star beta ;;
  Py.ret
    [Plot [x_corner; x_max] [Np.Fin y_corner; Np.Fin y_corner] "green"
          (Some (ic_label U_star));
     Plot [x_corner; x_corner] [Np.Fin y_corner; Np.Fin y_max] "green" None].

(** The Cobb-Douglas branch: the sample points [xs] ... *)
Definition cobb_douglas_xs (x_max : R) : list R :=
  Np.linspace (Py.max (1 / 1000000) (x_max * (1 / 100))) x_max 400.

(** ... the curve [ys = (U_star / xs ** alpha) ** (1 / beta)] over them,
    [e] being the value of [1 / beta] ... *)
Definition cobb_douglas_ys (U_star alpha e : R) (xs : list R)
  : list Np.float :=
  map (fun x => Np.pow_entry (Np.div_entry U_star (Np.pow x alpha)) e) xs.

(** ... and the drawn part of it. *)
Definition cobb_douglas_ic (x_max y_max alpha beta U_star : R)
  : option (list artist) :=
  let xs := cobb_douglas_xs x_max in
  e <- Py.div 1 beta ;;
  let ys := cobb_douglas_ys U_star alpha e xs in
  let mask := in_range y_max ys in
  Py.ret
    [Plot (Np.select mask xs) (Np.select mask ys) "green"
          (Some (ic_label U_star))].

(** The artists that are curves. *)
Definition is_plot (a : artist) : Prop :=
  match a with
  | Plot _ _ _ _ => True
  | _ => False
  end.

(** The marker of the optimal bundle and its coordinate label. *)
Definition optimal_marker (x_star y_star : R) : artist :=
  Scatter [x_star] [y_star] "red" "Optimal bundle".

Definition optimal_label (x_star y_star : R) : artist :=
  Text x_star y_star
    ("  (" ++ format_fixed 2 x_star ++ ", " ++ format_fixed 2 y_star ++ ")")%string.

(** The optimal point, drawn only when it is a single point. *)
Definition optimum_artists (x_star y_star : R) (status_flag : string)
  : list artist :=
  if negb (String.eqb status_flag many)
  then [optimal_marker x_star y_star; optimal_label x_star y_star]
  else [].

Definition plot_budget_and_ic
    (M px py : R) (utility_type : string)
    (alpha beta x_star y_star U_star : R) (status_flag : string)
  : option figure :=
  x_max <- Py.div M px ;;
  y_max <- Py.div M py ;;
  let x_vals := Np.linspace 0 x_max 400 in
  let budget_y := map (fun x => Np.div (M - px * x) py) x_vals in
  let budget := Plot x_vals budget_y "black" (Some "Budget line"%string) in
  ic <- (if prefix "Linear" utility_type then
           Py.ret (linear_ic x_vals y_max alpha beta U_star)
         else if prefix "Leontief" utility_type then
           leontief_ic x_max y_max alpha beta U_star
         else
           cobb_douglas_ic x_max y_max alpha beta U_star) ;;
  let optimum := optimum_artists x_star y_star status_flag in
  Py.ret {| artists := budget :: ic ++ optimum;
            xlim := (0, x_max * (105 / 100));
            ylim := (0, y_max * (105 / 100));
            xlabel := "Quantity of x";
            ylabel := "Quantity of y" |}.

(** The solve-and-plot step of the main block (lines 136-160); the
    printing of the numbers below the chart is left out. *)
Definition compute_optimum
    (M p_x p_y : R) (utility_type : string) (alpha beta : R)
  : option figure :=
  if prefix "Cobb" utility_type then
    r <- cobb_douglas_opt p_x p_y M alpha beta ;;
    let '(x_star, y_star, U_star) := r in
    let status := single in
    plot_budget_and_ic M p_x p_y utility_type alpha beta
                       x_star y_star U_star status
  else if prefix "Leontief" utility_type then
    r <- leontief_opt p_x p_y M alpha beta ;;
    let '(x_star, y_star, U_star) := r in
    let status := single in
    plot_budget_and_ic M p_x p_y utility_type alpha beta
                       x_star y_star U_star status
  else
    r <- linear_opt p_x p_y M alpha beta ;;
    let '(x_star, y_star, U_star, status_flag) := r in
    plot_budget_and_ic M p_x p_y utility_type alpha beta
                       x_star y_star U_star status_flag.

(** ** The indifference-curve viewer ([cobb_douglas_app.py], lines 51-90) *)

Module Viewer.

(** What the viewer adds to its figure. *)
Inductive trace : Type :=
| Contour (x y : list R) (z : list (list Np.float)) (level : Np.float)
| MarkerText (x y : Z) (text : string).

(** The utility surface over the grid. *)
Definition grid : list R := Np.linspace (1 / 10) 10 300.

Definition U (alpha beta : R) : list (list Np.float) :=
  map (fun Y => map (fun X => Np.mul (Np.pow X alpha) (Np.pow Y beta)) grid)
      grid.

(** The reference points. *)
Definition x_ref : Z := 5.
Definition y_refs : list Z := [1; 2; 3; 4; 5; 6; 7]%Z.

(** [(x_ref ** alpha) * (y_refs ** beta)]: a Python power of the integer
    [x_ref] times the array of the powers of the anchors. *)
Definition U_levels (alpha beta : R) : option (list Np.float) :=
  xa <- Py.pow (IZR x_ref) alpha ;;
  Py.ret (map (fun y => Np.mul (Np.Fin xa) (Np.pow (IZR y) beta)) y_refs).

(** [int(y_val)] in a format string. *)
Definition int_text (n : Z) : string := NilZero.string_of_int (Z.to_int n).

(** [f"(5,{int(y_val)}): U={u_val:.2f}"]. *)
Definition label (y_val : Z) (u_val : Np.float) : string :=
  ("(5," ++ int_text y_val ++ "): U=" ++ format_entry 2 u_val)%string.

(** The figure: one contour line per level, then one labelled point per
    anchor. *)
Definition fig (alpha beta : R) : option (list trace) :=
  levels <- U_levels alpha beta ;;
  Py.ret
    (map (fun U_level => Contour grid grid (U alpha beta) U_level) levels
     ++ map (fun p => MarkerText x_ref (fst p) (label (fst p) (snd p)))
            (combine y_refs levels)).

End Viewer.

(** ** The main block ([optimal_consumption_app.py], lines 136-177) *)







(** The three entries of the utility select box. *)
Definition utility_options : list string :=
  ["Linear (perfect substitutes)";
   "Leontief (perfect complements)";
   "Cobb–Douglas"]%string.

(** ** The stored parameters of the viewer ([cobb_douglas_app.py], lines 9-49) *)

Module Session.

(** The two keys of [st.session_state] the script uses; a key may be
    absent. *)
Record state : Type := {
  alpha : option R;
  beta : option R
}.

(** The state of a fresh session. *)
Definition fresh : state := {| alpha := None; beta := None |}.

(** What one run of the script is given: the values of the two number
    inputs and whether the button was pressed. *)
Record event : Type := {
  alpha_input : R;
  beta_input : R;
  update : bool
}.

(** Lines 10-13: absent keys are set to [0.5]. *)
Definition initialize (s : state) : R * R :=
  (match alpha s with Some a => a | None => 1 / 2 end,
   match beta s with Some b => b | None => 1 / 2 end).

(** One run: the state after it and the parameters the graph is drawn
    with. *)
Definition rerun (s : state) (e : event) : state * (R * R) :=
  let '(a, b) := initialize s in
  let '(a, b) := if update e then (alpha_input e, beta_input e) else (a, b) in
  ({| alpha := Some a; beta := Some b |}, (a, b)).

(** A session: the runs in order; the parameters of the last graph. *)
Fixpoint session (s : state) (es : list event) : state :=
  match es with
  | [] => s
  | e :: es' => session (fst (rerun s e)) es'
  end.

End Session.

(** ** Basic facts about the scalar operations *)

Lemma div_nonzero (a b : R) : b <> 0 -> Py.div a b = Some (a / b).
Proof.
  intro Hb. unfold Py.div. destruct (Req_dec_T b 0) as [E | _].
  - contradiction.
  - reflexivity.
Qed.

Lemma div_pos (a b : R) : 0 < b -> Py.div a b = Some (a / b).
Proof. intro Hb. apply div_nonzero. lra. Qed.

Lemma pow_pos_base (x y : R) : 0 < x -> Py.pow x y = Some (Rpower x y).
Proof.
  intro Hx. unfold Py.pow. destruct (Rlt_dec 0 x) as [_ | N].
  - reflexivity.
  - contradiction.
Qed.

Lemma min_is_Rmin (a b : R) : Py.min a b = Rmin a b.
Proof.
  unfold Py.min, Rmin.
  destruct (Rlt_dec b a), (Rle_dec a b); try reflexivity; lra.
Qed.


Lemma tol_pos : 0 < tol.
Proof. unfold tol. lra. Qed.

(** ** Closed forms of the solvers on positive inputs *)

Section PositiveInputs.

Variables px py M a b : R.
Hypothesis HM : 0 < M.
Hypothesis Hpx : 0 < px.
Hypothesis Hpy : 0 < py.
Hypothesis Ha : 0 < a.
Hypothesis Hb : 0 < b.

Lemma share_pos : 0 < a / (a + b) /\ 0 < b / (a + b).
Proof. split; apply Rdiv_lt_0_compat; lra. Qed.

Lemma cd_x_pos : 0 < a / (a + b) * M / px.
Proof.
  destruct share_pos as [Hs _].
  apply Rdiv_lt_0_compat; [apply Rmult_lt_0_compat |]; assumption.
Qed.

Lemma cd_y_pos : 0 < b / (a + b) * M / py.
Proof.
  destruct share_pos as [_ Hs].
  apply Rdiv_lt_0_compat; [apply Rmult_lt_0_compat |]; assumption.
Qed.

Lemma cobb_douglas_opt_eq :
  cobb_douglas_opt px py M a b =
  Some (a / (a + b) * M / px,
        b / (a + b) * M / py,
        Rpower (a / (a + b) * M / px) a * Rpower (b / (a + b) * M / py) b).
Proof.
  unfold cobb_douglas_opt.
  rewrite (div_pos a (a + b)) by lra. cbn [Py.bind].
  rewrite (div_pos _ px) by assumption. cbn [Py.bind].
  rewrite (div_pos b (a + b)) by lra. cbn [Py.bind].
  rewrite (div_pos _ py) by assumption. cbn [Py.bind].
  rewrite (pow_pos_base _ a cd_x_pos). cbn [Py.bind].
  rewrite (pow_pos_base _ b cd_y_pos). reflexivity.
Qed.

Lemma slope_pos : 0 < a / b.
Proof. apply Rdiv_lt_0_compat; assumption. Qed.

Lemma leontief_denominator_pos : 0 < px + py * (a / b).
Proof.
  pose proof slope_pos as Hk.
  pose proof (Rmult_lt_0_compat _ _ Hpy Hk). lra.
Qed.

Lemma leontief_opt_eq :
  leontief_opt px py M a b =
  Some (M / (px + py * (a / b)),
        a / b * (M / (px + py * (a / b))),
        Py.min (a * (M / (px + py * (a / b))))
               (b * (a / b * (M / (px + py * (a / b)))))).
Proof.
  unfold leontief_opt.
  rewrite (div_pos a b) by assumption. cbn [Py.bind].
  rewrite (div_pos M _ leontief_denominator_pos). reflexivity.
Qed.

Lemma linear_opt_many :
  Rabs (a / b - px / py) < tol ->
  linear_opt px py M a b = Some (M / px / 2, M / py / 2, a * (M / px), many).
Proof.
  intro Htie. unfold linear_opt.
  rewrite (div_pos a b) by assumption. cbn [Py.bind].
  rewrite (div_pos px py) by assumption. cbn [Py.bind].
  unfold Py.abs. destruct (Rlt_dec (Rabs (a / b - px / py)) tol) as [_ | N].
  - rewrite (div_pos M px) by assumption. cbn [Py.bind].
    rewrite (div_pos M py) by assumption. reflexivity.
  - contradiction.
Qed.

Lemma linear_opt_corner_x :
  tol <= Rabs (a / b - px / py) -> px / py < a / b ->
  linear_opt px py M a b = Some (M / px, 0, a * (M / px), corner_x).
Proof.
  intros Hfar Hgt. unfold linear_opt.
  rewrite (div_pos a b) by assumption. cbn [Py.bind].
  rewrite (div_pos px py) by assumption. cbn [Py.bind].
  unfold Py.abs. destruct (Rlt_dec (Rabs (a / b - px / py)) tol) as [Y | _].
  - lra.
  - destruct (Rlt_dec (px / py) (a / b)) as [_ | N].
    + rewrite (div_pos M px) by assumption. reflexivity.
    + contradiction.
Qed.

Lemma linear_opt_corner_y :
  tol <= Rabs (a / b - px / py) -> ~ px / py < a / b ->
  linear_opt px py M a b = Some (0, M / py, b * (M / py), corner_y).
Proof.
  intros Hfar Hle. unfold linear_opt.
  rewrite (div_pos a b) by assumption. cbn [Py.bind].
  rewrite (div_pos px py) by assumption. cbn [Py.bind].
  unfold Py.abs. destruct (Rlt_dec (Rabs (a / b - px / py)) tol) as [Y | _].
  - lra.
  - destruct (Rlt_dec (px / py) (a / b)) as [Y | _].
    + contradiction.
    + rewrite (div_pos M py) by assumption. reflexivity.
Qed.

End PositiveInputs.

(** The two arguments of the Leontief [min] coincide. *)
Lemma leontief_min_eq (a b x : R) :
  0 < b -> Py.min (a * x) (b * (a / b * x)) = a * x.
Proof.
  intro Hb. replace (b * (a / b * x)) with (a * x) by (field; lra).
  unfold Py.min. destruct (Rlt_dec (a * x) (a * x)); reflexivity.
Qed.


(** ** The solvers: claims *)







(** C4.  On positive inputs the Leontief solver returns, with [k = a/b],
    [x = M / (px + py * k)], [y = k * x] and [U = min (a x) (b y)]; the
    answer satisfies [a x = b y] and spends exactly the budget. *)
Theorem leontief_opt_correct (px py M a b : R) :
  0 < M -> 0 < px -> 0 < py -> 0 < a -> 0 < b ->
  leontief_opt px py M a b =
    Some (M / (px + py * (a / b)),
          a / b * (M / (px + py * (a / b))),
          Rmin (a * (M / (px + py * (a / b))))
               (b * (a / b * (M / (px + py * (a / b))))))
  /\ a * (M / (px + py * (a / b))) = b * (a / b * (M / (px + py * (a / b))))
  /\ px * (M / (px + py * (a / b)))
     + py * (a / b * (M / (px + py * (a / b)))) = M.
Proof.
  intros HM Hpx Hpy Ha Hb.
  pose proof (leontief_denominator_pos px py a b Hpx Hpy Ha Hb) as Hd.
  assert (Hn : px * b + py * a <> 0).
  { pose proof (Rmult_lt_0_compat _ _ Hpx Hb).
    pose proof (Rmult_lt_0_compat _ _ Hpy Ha). lra. }
  split; [| split].
  - rewrite leontief_opt_eq by assumption. rewrite min_is_Rmin. reflexivity.
  - field. split; [lra | exact Hn].
  - field. split; [lra | exact Hn].
Qed.

Lemma leontief_opt_correct_witness :
  leontief_opt 1 1 10 1 1 =
    Some (10 / (1 + 1 * (1 / 1)),
          1 / 1 * (10 / (1 + 1 * (1 / 1))),
          Rmin (1 * (10 / (1 + 1 * (1 / 1))))
               (1 * (1 / 1 * (10 / (1 + 1 * (1 / 1))))))
  /\ 1 * (10 / (1 + 1 * (1 / 1))) = 1 * (1 / 1 * (10 / (1 + 1 * (1 / 1))))
  /\ 1 * (10 / (1 + 1 * (1 / 1)))
     + 1 * (1 / 1 * (10 / (1 + 1 * (1 / 1)))) = 10.
Proof. apply (leontief_opt_correct 1 1 10 1 1); lra. Defined.

(** ** Utility along the budget line *)

(** Two bundles on the budget line differ in linear utility by the
    difference of their [x] times the slope gap, scaled by [b]. *)
Lemma linear_utility_difference (px py M a b x1 y1 x2 y2 : R) :
  0 < py -> 0 < b ->
  px * x1 + py * y1 = M -> px * x2 + py * y2 = M ->
  (a * x1 + b * y1) - (a * x2 + b * y2) = b * (x1 - x2) * (a / b - px / py).
Proof.
  intros Hpy Hb H1 H2.
  assert (E1 : y1 = (M - px * x1) / py).
  { rewrite <- H1. field. lra. }
  assert (E2 : y2 = (M - px * x2) / py).
  { rewrite <- H2. field. lra. }
  rewrite E1, E2. field. split; lra.
Qed.


(** The two expressions of the tie utility differ by the slope gap. *)
Lemma tie_utility_difference (px py M a b : R) :
  0 < px -> 0 < py -> 0 < b ->
  a * (M / px) - b * (M / py) = b * (M / px) * (a / b - px / py).
Proof. intros Hpx Hpy Hb. field. repeat split; lra. Qed.

(** With equal slopes all bundles of the budget line have one utility,
    which both expressions of the tie utility give. *)
Lemma exact_tie_same_utility (px py M a b x1 y1 x2 y2 : R) :
  0 < px -> 0 < py -> 0 < b -> a / b = px / py ->
  px * x1 + py * y1 = M -> px * x2 + py * y2 = M ->
  a * x1 + b * y1 = a * x2 + b * y2 /\ a * (M / px) = b * (M / py).
Proof.
  intros Hpx Hpy Hb Heq H1 H2.
  pose proof (linear_utility_difference px py M a b x1 y1 x2 y2 Hpy Hb H1 H2) as D.
  pose proof (tie_utility_difference px py M a b Hpx Hpy Hb) as T.
  rewrite Heq in D, T. rewrite Rminus_diag in D, T.
  rewrite Rmult_0_r in D, T. split; lra.
Qed.




(** ** Comparative statics *)






(** ** Sampling and masking *)

Lemma In_removelast {A : Type} (x : A) (l : list A) :
  In x (removelast l) -> In x l.
Proof.
  induction l as [| a l IH]; [intros [] |].
  destruct l as [| a' l']; [intros [] |].
  intros [E | H].
  - left. exact E.
  - right. apply IH. exact H.
Qed.




Lemma np_pow_pos_base (x y : R) : 0 < x -> Np.pow x y = Np.Fin (Rpower x y).
Proof.
  intro Hx. unfold Np.pow. destruct (Rlt_dec 0 x) as [_ | N].
  - reflexivity.
  - contradiction.
Qed.






(** ** The chart: claims *)




(** On positive inputs the chart is a budget line, the curves of the
    selected branch and the optimum artists, in this order. *)
Lemma plot_artists (M px py alpha beta x_star y_star U_star : R)
    (utility_type status_flag : string) :
  0 < px -> 0 < py -> 0 < alpha -> 0 < beta ->
  exists fig budget ic,
    plot_budget_and_ic M px py utility_type alpha beta
                       x_star y_star U_star status_flag = Some fig
    /\ artists fig = budget :: ic ++ optimum_artists x_star y_star status_flag
    /\ is_plot budget /\ Forall is_plot ic.
Proof.
  intros Hpx Hpy Halpha Hbeta.
  unfold plot_budget_and_ic.
  rewrite (div_pos M px Hpx). cbn [Py.bind].
  rewrite (div_pos M py Hpy). cbn [Py.bind].
  destruct (prefix "Linear" utility_type).
  - cbn [Py.bind Py.ret]. eexists; eexists; eexists.
    split; [reflexivity |]. cbn [artists].
    split; [reflexivity |]. split; [exact I |].
    unfold linear_ic. repeat constructor.
  - destruct (prefix "Leontief" utility_type).
    + unfold leontief_ic.
      rewrite (div_pos U_star alpha Halpha). cbn [Py.bind].
      rewrite (div_pos U_star beta Hbeta). cbn [Py.bind Py.ret].
      eexists; eexists; eexists.
      split; [reflexivity |]. cbn [artists].
      split; [reflexivity |]. split; [exact I |]. repeat constructor.
    + unfold cobb_douglas_ic.
      rewrite (div_pos 1 beta Hbeta). cbn [Py.bind Py.ret].
      eexists; eexists; eexists.
      split; [reflexivity |]. cbn [artists].
      split; [reflexivity |]. split; [exact I |]. repeat constructor.
Qed.

Lemma not_plot_in_curves (a : artist) (budget : artist) (ic rest : list artist) :
  ~ is_plot a -> is_plot budget -> Forall is_plot ic ->
  In a (budget :: ic ++ rest) <-> In a rest.
Proof.
  intros Ha Hb Hic. split.
  - intros [E | H].
    + subst. contradiction.
    + apply in_app_or in H. destruct H as [H | H]; [| exact H].
      rewrite Forall_forall in Hic. elim Ha. apply Hic. exact H.
  - intro H. right. apply in_or_app. right. exact H.
Qed.

Lemma marker_in_optimum (x_star y_star : R) (status_flag : string) :
  In (optimal_marker x_star y_star)
     (optimum_artists x_star y_star status_flag)
  <-> status_flag <> many.
Proof.
  unfold optimum_artists.
  destruct (String.eqb_spec status_flag many) as [E | N]; cbn [negb].
  - split; [intros [] | intro H; contradiction].
  - split; [intros _; exact N | intros _; left; reflexivity].
Qed.

Lemma label_in_optimum (x_star y_star : R) (status_flag : string) :
  In (optimal_label x_star y_star)
     (optimum_artists x_star y_star status_flag)
  <-> status_flag <> many.
Proof.
  unfold optimum_artists.
  destruct (String.eqb_spec status_flag many) as [E | N]; cbn [negb].
  - split; [intros [] | intro H; contradiction].
  - split; [intros _; exact N | intros _; right; left; reflexivity].
Qed.

(** C8.  The chart contains the marker of the optimal bundle, and its
    coordinate label, exactly when the status is not ["many"]: with
    ["single"], ["corner_x"] and ["corner_y"] both are drawn at
    [(x_star, y_star)], with ["many"] neither is. *)
Theorem optimal_marker_iff_not_many
    (M px py alpha beta x_star y_star U_star : R)
    (utility_type status_flag : string) :
  0 < M -> 0 < px -> 0 < py -> 0 < alpha -> 0 < beta ->
  exists fig,
    plot_budget_and_ic M px py utility_type alpha beta
                       x_star y_star U_star status_flag = Some fig
    /\ (In (optimal_marker x_star y_star) (artists fig)
        <-> status_flag <> "many"%string)
    /\ (In (optimal_label x_star y_star) (artists fig)
        <-> status_flag <> "many"%string)
    /\ (In status_flag ["single"; "corner_x"; "corner_y"]%string ->
        In (Scatter [x_star] [y_star] "red" "Optimal bundle") (artists fig)
        /\ In (optimal_label x_star y_star) (artists fig))
    /\ (status_flag = "many"%string ->
        ~ In (optimal_marker x_star y_star) (artists fig)
        /\ ~ In (optimal_label x_star y_star) (artists fig)).
Proof.
  intros HM Hpx Hpy Halpha Hbeta.
  destruct (plot_artists M px py alpha beta x_star y_star U_star
              utility_type status_flag Hpx Hpy Halpha Hbeta)
    as (fig & budget & ic & Hfig & Hart & Hb & Hic).
  exists fig. split; [exact Hfig |].
  assert (Hm : In (optimal_marker x_star y_star) (artists fig)
               <-> status_flag <> many).
  { rewrite Hart. rewrite not_plot_in_curves; try assumption.
    - apply marker_in_optimum.
    - intros []. }
  assert (Hl : In (optimal_label x_star y_star) (artists fig)
               <-> status_flag <> many).
  { rewrite Hart. rewrite not_plot_in_curves; try assumption.
    - apply label_in_optimum.
    - intros []. }
  split; [exact Hm | split; [exact Hl | split]].
  - intro Hs.
    assert (Hne : status_flag <> many).
    { destruct Hs as [<- | [<- | [<- | []]]]; discriminate. }
    split; [apply Hm | apply Hl]; exact Hne.
  - intro Hs. split; intro Hin.
    + apply Hm in Hin. contradiction.
    + apply Hl in Hin. contradiction.
Qed.

Lemma optimal_marker_iff_not_many_witness :
  exists fig,
    plot_budget_and_ic 10 1 2 "Linear (perfect substitutes)" 1 1
                       10 0 10 "corner_x" = Some fig
    /\ In (optimal_marker 10 0) (artists fig)
    /\ In (optimal_label 10 0) (artists fig).
Proof.
  destruct (optimal_marker_iff_not_many 10 1 2 1 1 10 0 10
              "Linear (perfect substitutes)" "corner_x")
    as (fig & Hfig & _ & _ & Hdrawn & _); try lra.
  exists fig. split; [exact Hfig |].
  apply Hdrawn. right. left. reflexivity.
Defined.

(** The solve-and-plot step answers with a chart on all positive inputs. *)
Lemma compute_optimum_total (M p_x p_y alpha beta : R) (utility_type : string) :
  0 < M -> 0 < p_x -> 0 < p_y -> 0 < alpha -> 0 < beta ->
  exists fig, compute_optimum M p_x p_y utility_type alpha beta = Some fig.
Proof.
  intros HM Hpx Hpy Halpha Hbeta. unfold compute_optimum.
  assert (Hplot : forall x y U s, exists fig,
            plot_budget_and_ic M p_x p_y utility_type alpha beta x y U s
            = Some fig).
  { intros x y U s.
    destruct (plot_artists M p_x p_y alpha beta x y U utility_type s
                Hpx Hpy Halpha Hbeta) as (fig & _ & _ & Hfig & _).
    exists fig. exact Hfig. }
  destruct (prefix "Cobb" utility_type).
  - rewrite cobb_douglas_opt_eq by assumption. cbn [Py.bind]. apply Hplot.
  - destruct (prefix "Leontief" utility_type).
    + rewrite leontief_opt_eq by assumption. cbn [Py.bind]. apply Hplot.
    + destruct (Rlt_dec (Rabs (alpha / beta - p_x / p_y)) tol) as [Ht | Hf].
      * rewrite linear_opt_many by assumption. cbn [Py.bind]. apply Hplot.
      * apply Rnot_lt_le in Hf.
        destruct (Rlt_dec (p_x / p_y) (alpha / beta)) as [Hgt | Hle].
        -- rewrite linear_opt_corner_x by assumption. cbn [Py.bind].
           apply Hplot.
        -- rewrite linear_opt_corner_y by assumption. cbn [Py.bind].
           apply Hplot.
Qed.

(** ** Rounding to the hundredths *)

Lemma Int_part_bounds (r : R) : IZR (Int_part r) <= r < IZR (Int_part r) + 1.
Proof. destruct (base_Int_part r) as [H1 H2]. lra. Qed.

(** Rounding moves a number by at most one half. *)
Lemma round_half_even_near (r : R) :
  Rabs (r - IZR (round_half_even r)) <= 1 / 2.
Proof.
  pose proof (Int_part_bounds r) as [Hlo Hhi].
  unfold round_half_even, frac_part.
  destruct (Rlt_dec (r - IZR (Int_part r)) (1 / 2)) as [Hd | Hd].
  - apply Rabs_le. lra.
  - destruct (Rlt_dec (1 / 2) (r - IZR (Int_part r))) as [Hu | Hu].
    + rewrite plus_IZR. apply Rabs_le. lra.
    + destruct (Z.even (Int_part r)).
      * apply Rabs_le. lra.
      * rewrite plus_IZR. apply Rabs_le. lra.
Qed.

(** A number strictly within one half of an integer rounds to it. *)
Lemma round_half_even_unique (r : R) (z : Z) :
  IZR z - 1 / 2 < r < IZR z + 1 / 2 -> round_half_even r = z.
Proof.
  intros [Hlo Hhi].
  pose proof (Int_part_bounds r) as [Flo Fhi].
  assert (Hcases : Int_part r = z \/ Int_part r = (z - 1)%Z).
  { assert (H1 : (Int_part r < z + 1)%Z).
    { apply lt_IZR. rewrite plus_IZR. lra. }
    assert (H2 : (z - 2 < Int_part r)%Z).
    { apply lt_IZR. rewrite minus_IZR. lra. }
    lia. }
  unfold round_half_even, frac_part.
  destruct Hcases as [E | E]; rewrite E in *.
  - destruct (Rlt_dec (r - IZR z) (1 / 2)) as [_ | N]; [reflexivity | lra].
  - rewrite minus_IZR in *.
    destruct (Rlt_dec (r - (IZR z - 1)) (1 / 2)) as [Y | _]; [lra |].
    destruct (Rlt_dec (1 / 2) (r - (IZR z - 1))) as [_ | N]; [lia | lra].
Qed.

Lemma sqrt_15_bounds : 3865 / 1000 < sqrt 15 < 3875 / 1000.
Proof.
  assert (H0 : 0 <= sqrt 15) by apply sqrt_pos.
  assert (H2 : sqrt 15 * sqrt 15 = 15) by (apply sqrt_sqrt; lra).
  split; nra.
Qed.

Lemma Rpower_5_3_half : Rpower 5 (1 / 2) * Rpower 3 (1 / 2) = sqrt 15.
Proof.
  rewrite Rpower_mult_distr by lra.
  replace (5 * 3) with 15 by lra.
  replace (1 / 2) with (/ 2) by lra.
  apply Rpower_sqrt. lra.
Qed.

Lemma format_sqrt_15 : format_fixed 2 (sqrt 15) = "3.87"%string.
Proof.
  pose proof sqrt_15_bounds as [Hlo Hhi].
  unfold format_fixed.
  change (10 ^ Z.of_nat 2)%Z with 100%Z.
  rewrite (round_half_even_unique (sqrt 15 * 100) 387) by lra.
  destruct (Rlt_dec (sqrt 15) 0) as [N | _]; [lra |].
  reflexivity.
Qed.

(** ** The viewer: claims *)

Lemma U_levels_eq (alpha beta : R) :
  Viewer.U_levels alpha beta =
  Some (map (fun y => Np.Fin (Rpower 5 alpha * Rpower (IZR y) beta))
            [1; 2; 3; 4; 5; 6; 7]%Z).
Proof.
  unfold Viewer.U_levels, Viewer.x_ref, Viewer.y_refs.
  rewrite pow_pos_base by lra. cbn [Py.bind Py.ret map].
  rewrite !np_pow_pos_base by lra. reflexivity.
Qed.

(** C9.  The viewer anchors its curves at [x_ref = 5] and
    [y_ref = 1, ..., 7]; the level of the curve through an anchor is
    [5^alpha * y_ref^beta]; the figure has one contour per level and one
    labelled point per anchor, whose text shows the anchor and the level
    rounded to the nearest hundredth, with two decimals; with
    [alpha = beta = 0.5] the level through [(5, 3)] is [sqrt 15] and its
    label reads [(5,3): U=3.87]. *)
Theorem viewer_levels_and_labels (alpha beta : R) :
  Viewer.x_ref = 5%Z
  /\ Viewer.y_refs = [1; 2; 3; 4; 5; 6; 7]%Z
  /\ Viewer.U_levels alpha beta =
       Some (map (fun y => Np.Fin (Rpower 5 alpha * Rpower (IZR y) beta))
                 [1; 2; 3; 4; 5; 6; 7]%Z)
  /\ Viewer.fig alpha beta =
       Some (map (fun y =>
                    Viewer.Contour Viewer.grid Viewer.grid
                      (Viewer.U alpha beta)
                      (Np.Fin (Rpower 5 alpha * Rpower (IZR y) beta)))
                 [1; 2; 3; 4; 5; 6; 7]%Z
             ++ map (fun y =>
                       Viewer.MarkerText 5 y
                         ("(5," ++ Viewer.int_text y ++ "): U="
                          ++ format_fixed 2
                               (Rpower 5 alpha * Rpower (IZR y) beta))%string)
                    [1; 2; 3; 4; 5; 6; 7]%Z)
  /\ (forall u : R,
        format_fixed 2 u =
          render_fixed 2 (if Rlt_dec u 0 then true else false)
                       (round_half_even (u * 100))
        /\ Rabs (u * 100 - IZR (round_half_even (u * 100))) <= 1 / 2)
  /\ Rpower 5 (1 / 2) * Rpower 3 (1 / 2) = sqrt 15
  /\ Viewer.label 3 (Np.Fin (Rpower 5 (1 / 2) * Rpower 3 (1 / 2)))
     = "(5,3): U=3.87"%string.
Proof.
  split; [reflexivity | split; [reflexivity |]].
  split; [apply U_levels_eq |].
  split; [| split; [| split]].
  - unfold Viewer.fig. rewrite U_levels_eq. reflexivity.
  - intro u. split; [reflexivity | apply round_half_even_near].
  - apply Rpower_5_3_half.
  - unfold Viewer.label. cbn [format_entry].
    rewrite Rpower_5_3_half, format_sqrt_15. reflexivity.
Qed.

(** ** The solvers: optimality *)















(** ** The solvers: errors and edge inputs *)


Lemma pow_zero_base (a : R) : 0 < a -> Py.pow 0 a = Some 0.
Proof.
  intro Ha. unfold Py.pow.
  destruct (Rlt_dec 0 0) as [C | _]; [lra |].
  destruct (Req_dec_T 0 0) as [_ | C]; [| lra].
  destruct (Rlt_dec 0 a) as [_ | C]; [reflexivity | contradiction].
Qed.

(** X6.  With a zero budget and positive prices and parameters every
    solver returns the zero bundle with utility zero, and raises nothing. *)
Theorem zero_budget (px py a b : R) :
  0 < px -> 0 < py -> 0 < a -> 0 < b ->
  cobb_douglas_opt px py 0 a b = Some (0, 0, 0)
  /\ leontief_opt px py 0 a b = Some (0, 0, 0)
  /\ exists status,
       linear_opt px py 0 a b = Some (0, 0, 0, status)
       /\ In status ["many"; "corner_x"; "corner_y"]%string.
Proof.
  intros Hpx Hpy Ha Hb. split; [| split].
  - unfold cobb_douglas_opt.
    rewrite (div_pos a (a + b)) by lra. cbn [Py.bind].
    rewrite (div_pos _ px) by assumption. cbn [Py.bind].
    rewrite (div_pos b (a + b)) by lra. cbn [Py.bind].
    rewrite (div_pos _ py) by assumption. cbn [Py.bind].
    replace (a / (a + b) * 0 / px) with 0 by (field; lra).
    replace (b / (a + b) * 0 / py) with 0 by (field; lra).
    rewrite (pow_zero_base a Ha), (pow_zero_base b Hb). cbn [Py.bind Py.ret].
    rewrite Rmult_0_l. reflexivity.
  - rewrite leontief_opt_eq by assumption.
    rewrite leontief_min_eq by assumption.
    pose proof (leontief_denominator_pos px py a b Hpx Hpy Ha Hb) as Hd.
    replace (0 / (px + py * (a / b))) with 0 by (field; split; [lra | nra]).
    rewrite !Rmult_0_r. reflexivity.
  - destruct (Rlt_dec (Rabs (a / b - px / py)) tol) as [Ht | Hf].
    + exists many. split; [| left; reflexivity].
      rewrite linear_opt_many by assumption.
      replace (0 / px / 2) with 0 by (field; lra).
      replace (0 / py / 2) with 0 by (field; lra).
      replace (a * (0 / px)) with 0 by (field; lra). reflexivity.
    + apply Rnot_lt_le in Hf.
      destruct (Rlt_dec (px / py) (a / b)) as [Hgt | Hngt].
      * exists corner_x. split; [| right; left; reflexivity].
        rewrite linear_opt_corner_x by assumption.
        replace (0 / px) with 0 by (field; lra).
        rewrite Rmult_0_r. reflexivity.
      * exists corner_y. split; [| right; right; left; reflexivity].
        rewrite linear_opt_corner_y by assumption.
        replace (0 / py) with 0 by (field; lra).
        rewrite Rmult_0_r. reflexivity.
Qed.

Lemma zero_budget_witness :
  cobb_douglas_opt 1 2 0 1 1 = Some (0, 0, 0)
  /\ leontief_opt 1 2 0 1 1 = Some (0, 0, 0)
  /\ exists status,
       linear_opt 1 2 0 1 1 = Some (0, 0, 0, status)
       /\ In status ["many"; "corner_x"; "corner_y"]%string.
Proof. apply (zero_budget 1 2 1 1); lra. Defined.

(** ** The solvers: how the answer depends on the parameters *)





(** ** More on sampling and masking *)

Lemma removelast_length {A : Type} (l : list A) :
  List.length (removelast l) = pred (List.length l).
Proof.
  induction l as [| a l IH]; [reflexivity |].
  destruct l as [| a' l']; [reflexivity |].
  change (removelast (a :: a' :: l')) with (a :: removelast (a' :: l')).
  cbn [List.length] in *. rewrite IH. reflexivity.
Qed.

Lemma linspace_length (start stop : R) (num : nat) :
  List.length (Np.linspace start stop num) = num.
Proof.
  unfold Np.linspace. destruct (1 <? num)%nat eqn:E.
  - apply Nat.ltb_lt in E.
    rewrite length_app, removelast_length, length_map, length_seq.
    cbn [List.length]. lia.
  - rewrite length_map, length_seq. reflexivity.
Qed.


(** A sample lies between any bounds of the two end points. *)
Lemma sample_bounds (lo hi start stop : R) (i n : nat) :
  lo <= start <= hi -> lo <= stop <= hi -> (i <= n)%nat -> (0 < n)%nat ->
  lo <= INR i * ((stop - start) / INR n) + start <= hi.
Proof.
  intros [Hs1 Hs2] [He1 He2] Hi Hn.
  assert (Hn' : 0 < INR n) by (apply lt_0_INR; exact Hn).
  assert (Hi0 : 0 <= INR i) by apply pos_INR.
  assert (Hin : INR i <= INR n) by (apply le_INR; exact Hi).
  set (t := INR i / INR n).
  assert (Ht : 0 <= t <= 1).
  { unfold t. split.
    - apply Rmult_le_pos; [exact Hi0 | left; apply Rinv_0_lt_compat; exact Hn'].
    - apply Rmult_le_reg_r with (INR n); [exact Hn' |].
      replace (INR i / INR n * INR n) with (INR i) by (field; lra). lra. }
  replace (INR i * ((stop - start) / INR n) + start)
    with (t * stop + (1 - t) * start) by (unfold t; field; lra).
  assert (A1 : t * lo <= t * stop) by (apply Rmult_le_compat_l; lra).
  assert (A2 : t * stop <= t * hi) by (apply Rmult_le_compat_l; lra).
  assert (B1 : (1 - t) * lo <= (1 - t) * start)
    by (apply Rmult_le_compat_l; lra).
  assert (B2 : (1 - t) * start <= (1 - t) * hi)
    by (apply Rmult_le_compat_l; lra).
  lra.
Qed.

Lemma linspace_bounds (lo hi start stop : R) (num : nat) :
  lo <= start <= hi -> lo <= stop <= hi ->
  Forall (fun x => lo <= x <= hi) (Np.linspace start stop num).
Proof.
  intros Hs He. apply Forall_forall. intros x Hx.
  unfold Np.linspace in Hx.
  assert (Hraw : forall z,
    In z (map (fun i => INR i * ((stop - start) / INR (num - 1)) + start)
              (seq 0 num)) -> lo <= z <= hi).
  { intros z Hz. apply in_map_iff in Hz. destruct Hz as (i & <- & Hi).
    apply in_seq in Hi. destruct (Nat.eq_dec num 1) as [-> | Hne].
    - assert (i = 0)%nat as -> by lia. simpl. lra.
    - apply sample_bounds; try assumption; lia. }
  destruct (1 <? num)%nat.
  - apply in_app_or in Hx. destruct Hx as [Hx | [<- | []]].
    + apply Hraw. apply In_removelast. exact Hx.
    + exact He.
  - apply Hraw. exact Hx.
Qed.



(** Nothing is kept when every entry fails the test. *)
Lemma select_none {A B : Type} (keep : B -> bool) (xs : list A) (ys : list B) :
  Forall (fun y => keep y = false) ys ->
  Np.select (map keep ys) xs = [].
Proof.
  intro H. revert xs. induction H as [| y ys Hy _ IH]; intros [| x xs];
    try reflexivity.
  cbn [map Np.select]. rewrite Hy. apply IH.
Qed.


(** ** The chart: budget line and curves *)

(** With nonzero prices the chart is the budget line, then the curves of
    the branch, then the optimum artists. *)
Lemma plot_unfold (M px py alpha beta x_star y_star U_star : R)
    (utility_type status_flag : string) :
  px <> 0 -> py <> 0 ->
  plot_budget_and_ic M px py utility_type alpha beta
                     x_star y_star U_star status_flag =
  (ic <- (if prefix "Linear" utility_type then
            Py.ret (linear_ic (Np.linspace 0 (M / px) 400) (M / py)
                              alpha beta U_star)
          else if prefix "Leontief" utility_type then
            leontief_ic (M / px) (M / py) alpha beta U_star
          else
            cobb_douglas_ic (M / px) (M / py) alpha beta U_star) ;;
   Py.ret {| artists :=
               Plot (Np.linspace 0 (M / px) 400)
                    (map (fun x => Np.div (M - px * x) py)
                         (Np.linspace 0 (M / px) 400))
                    "black" (Some "Budget line"%string)
               :: ic ++ optimum_artists x_star y_star status_flag;
             xlim := (0, M / px * (105 / 100));
             ylim := (0, M / py * (105 / 100));
             xlabel := "Quantity of x";
             ylabel := "Quantity of y" |}).
Proof.
  intros Hpx Hpy. unfold plot_budget_and_ic.
  rewrite (div_nonzero M px Hpx). cbn [Py.bind].
  rewrite (div_nonzero M py Hpy). reflexivity.
Qed.






(** Dividing by zero never gives an entry in a range. *)
Lemma div_by_zero_out_of_range (n y_max : R) :
  Np.ge (Np.div n 0) 0 && Np.le (Np.div n 0) y_max = false.
Proof.
  unfold Np.div. destruct (Req_dec_T 0 0) as [_ | C]; [| contradiction].
  destruct (Rlt_dec 0 n); [reflexivity |].
  destruct (Rlt_dec n 0); reflexivity.
Qed.

(** X11.  With [beta = 0] the Linear branch raises nothing: the array
    division yields infinities and nan, the mask rejects them all, and the
    indifference curve of the chart is empty. *)
Theorem linear_curve_beta_zero
    (M px py alpha x_star y_star U_star : R)
    (utility_type status_flag : string) :
  px <> 0 -> py <> 0 ->
  prefix "Linear" utility_type = true ->
  exists fig budget,
    plot_budget_and_ic M px py utility_type alpha 0
                       x_star y_star U_star status_flag = Some fig
    /\ artists fig =
         budget :: Plot [] [] "green" (Some (ic_label U_star))
                :: optimum_artists x_star y_star status_flag.
Proof.
  intros Hpx Hpy Hlinear.
  rewrite plot_unfold by assumption. rewrite Hlinear.
  cbn [Py.bind Py.ret]. unfold linear_ic, in_range.
  set (x_vals := Np.linspace 0 (M / px) 400).
  set (y_ic := map (fun x => Np.div (U_star - alpha * x) 0) x_vals).
  assert (Hnone : Forall (fun y => Np.ge y 0 && Np.le y (M / py) = false)
                         y_ic).
  { apply Forall_forall. intros y Hy. unfold y_ic in Hy.
    apply in_map_iff in Hy. destruct Hy as (x & <- & _).
    apply div_by_zero_out_of_range. }
  rewrite (select_none _ x_vals y_ic Hnone).
  rewrite (select_none _ y_ic y_ic Hnone).
  eexists; eexists. split; reflexivity.
Qed.

Lemma linear_curve_beta_zero_witness :
  exists fig budget,
    plot_budget_and_ic 10 1 2 "Linear (perfect substitutes)" 1 0
                       10 0 10 "corner_x" = Some fig
    /\ artists fig =
         budget :: Plot [] [] "green" (Some (ic_label 10))
                :: optimum_artists 10 0 "corner_x".
Proof.
  apply (linear_curve_beta_zero 10 1 2 1 10 0 10
           "Linear (perfect substitutes)" "corner_x"); try lra; reflexivity.
Defined.







(** ** The main block *)













(** ** The stored parameters of the viewer *)

(** What the state holds after a run is what the graph of that run was
    drawn with. *)
Lemma rerun_stores (s : Session.state) (e : Session.event) :
  Session.initialize (fst (Session.rerun s e)) = snd (Session.rerun s e).
Proof.
  unfold Session.rerun. destruct (Session.initialize s) as [a b].
  destruct (Session.update e); reflexivity.
Qed.

Lemma rerun_parameters (s : Session.state) (e : Session.event) :
  snd (Session.rerun s e) =
  if Session.update e
  then (Session.alpha_input e, Session.beta_input e)
  else Session.initialize s.
Proof.
  unfold Session.rerun. destruct (Session.initialize s) as [a b].
  destruct (Session.update e); reflexivity.
Qed.

Lemma session_initialize (es : list Session.event) (s : Session.state) :
  Session.initialize (Session.session s es) =
  fold_left (fun p ev => if Session.update ev
                         then (Session.alpha_input ev, Session.beta_input ev)
                         else p)
            es (Session.initialize s).
Proof.
  revert s. induction es as [| e es IH]; intro s; [reflexivity |].
  cbn [Session.session fold_left]. rewrite IH, rerun_stores, rerun_parameters.
  reflexivity.
Qed.

(** X18.  Across the runs of a session the graph is drawn with the inputs
    of the last run in which the button was pressed, and with [0.5, 0.5]
    when it never was: inputs that were typed but not committed have no
    effect. *)
Theorem session_parameters (es : list Session.event) (e : Session.event) :
  snd (Session.rerun (Session.session Session.fresh es) e) =
  fold_left (fun p ev => if Session.update ev
                         then (Session.alpha_input ev, Session.beta_input ev)
                         else p)
            (es ++ [e]) (1 / 2, 1 / 2).
Proof.
  rewrite fold_left_app. cbn [fold_left].
  rewrite rerun_parameters, session_initialize. reflexivity.
Qed.

(** X19.  When the two number inputs keep to their bounds [0.1] and [2.0],
    the parameters the graph is drawn with are within these bounds in
    every run, the first one included. *)
Theorem session_parameters_in_range
    (es : list Session.event) (e : Session.event) :
  Forall (fun ev => 1 / 10 <= Session.alpha_input ev <= 2
                    /\ 1 / 10 <= Session.beta_input ev <= 2) (es ++ [e]) ->
  1 / 10 <= fst (snd (Session.rerun (Session.session Session.fresh es) e)) <= 2
  /\ 1 / 10 <= snd (snd (Session.rerun (Session.session Session.fresh es) e))
     <= 2.
Proof.
  rewrite rerun_parameters, session_initialize.
  change (Session.initialize Session.fresh) with (1 / 2, 1 / 2).
  assert (Hgen : forall (l : list Session.event) (p : R * R),
    (1 / 10 <= fst p <= 2 /\ 1 / 10 <= snd p <= 2) ->
    Forall (fun ev => 1 / 10 <= Session.alpha_input ev <= 2
                      /\ 1 / 10 <= Session.beta_input ev <= 2) l ->
    let q := fold_left
               (fun p ev => if Session.update ev
                            then (Session.alpha_input ev,
                                  Session.beta_input ev)
                            else p) l p in
    1 / 10 <= fst q <= 2 /\ 1 / 10 <= snd q <= 2).
  { induction l as [| ev l IH]; intros p Hp Hl; [exact Hp |].
    inversion Hl as [| ? ? Hev Hl' ]; subst.
    cbn [fold_left]. apply IH; [| exact Hl'].
    destruct (Session.update ev); [exact Hev | exact Hp]. }
  intro H. apply Forall_app in H. destruct H as [Hes He].
  inversion He as [| ? ? Hev _]; subst.
  destruct (Session.update e); [exact Hev |].
  apply Hgen; [| exact Hes]. cbn [fst snd]. lra.
Qed.

Lemma session_parameters_in_range_witness :
  1 / 10 <= fst (snd (Session.rerun
                        (Session.session Session.fresh
                           [{| Session.alpha_input := 1;
                               Session.beta_input := 2;
                               Session.update := true |}])
                        {| Session.alpha_input := 3 / 2;
                           Session.beta_input := 1 / 5;
                           Session.update := false |})) <= 2
  /\ 1 / 10 <= snd (snd (Session.rerun
                        (Session.session Session.fresh
                           [{| Session.alpha_input := 1;
                               Session.beta_input := 2;
                               Session.update := true |}])
                        {| Session.alpha_input := 3 / 2;
                           Session.beta_input := 1 / 5;
                           Session.update := false |})) <= 2.
Proof.
  apply (session_parameters_in_range
           [{| Session.alpha_input := 1; Session.beta_input := 2;
               Session.update := true |}]
           {| Session.alpha_input := 3 / 2; Session.beta_input := 1 / 5;
              Session.update := false |}).
  repeat constructor; cbn; lra.
Defined.

(** ** The viewer: levels and surface *)

(** The utility grows with the second good when [beta] is positive. *)
Lemma level_increasing (alpha beta y1 y2 : R) :
  0 < beta -> 0 < y1 -> y1 < y2 ->
  Rpower 5 alpha * Rpower y1 beta < Rpower 5 alpha * Rpower y2 beta.
Proof.
  intros Hbeta H1 H12. apply Rmult_lt_compat_l; [apply exp_pos |].
  apply Rlt_Rpower_l; [exact Hbeta | split; assumption].
Qed.

(** X20.  For a positive [beta] the seven levels of the viewer are positive
    reals in strictly increasing order of their anchors: the seven curves
    are pairwise different, the one through [(5, 1)] the lowest. *)
Theorem viewer_levels_increasing (alpha beta : R) :
  0 < beta ->
  exists levels,
    Viewer.U_levels alpha beta = Some (map Np.Fin levels)
    /\ List.length levels = 7%nat
    /\ Forall (fun l => 0 < l) levels
    /\ ForallOrdPairs Rlt levels.
Proof.
  intro Hbeta.
  exists (map (fun y => Rpower 5 alpha * Rpower (IZR y) beta)
              [1; 2; 3; 4; 5; 6; 7]%Z).
  split; [rewrite U_levels_eq, map_map; reflexivity |].
  split; [reflexivity |].
  split.
  - cbn [map]. repeat constructor; apply Rmult_lt_0_compat; apply exp_pos.
  - cbn [map]. repeat constructor; apply level_increasing; lra.
Qed.

Lemma viewer_levels_increasing_witness :
  exists levels,
    Viewer.U_levels (1 / 2) (1 / 2) = Some (map Np.Fin levels)
    /\ List.length levels = 7%nat
    /\ Forall (fun l => 0 < l) levels
    /\ ForallOrdPairs Rlt levels.
Proof. apply (viewer_levels_increasing (1 / 2) (1 / 2)). lra. Defined.

(** The utility over a square, between its values at two corners. *)
Lemma utility_between (alpha beta lo hi x y : R) :
  0 < alpha -> 0 < beta -> 0 < lo ->
  lo <= x <= hi -> lo <= y <= hi ->
  Rpower lo alpha * Rpower lo beta <= Rpower x alpha * Rpower y beta
    <= Rpower hi alpha * Rpower hi beta.
Proof.
  intros Ha Hb Hlo [Hx1 Hx2] [Hy1 Hy2].
  split; apply Rmult_le_compat;
    try (left; apply exp_pos);
    apply Rle_Rpower_l; try lra; split; lra.
Qed.

Lemma utility_strictly_between (alpha beta lo hi x y : R) :
  0 < alpha -> 0 < beta -> 0 < lo ->
  lo < x < hi -> lo < y < hi ->
  Rpower lo alpha * Rpower lo beta < Rpower x alpha * Rpower y beta
    < Rpower hi alpha * Rpower hi beta.
Proof.
  intros Ha Hb Hlo [Hx1 Hx2] [Hy1 Hy2].
  split; apply Rmult_gt_0_lt_compat;
    try apply exp_pos;
    apply Rlt_Rpower_l; try assumption; split; lra.
Qed.

(** X21.  For positive exponents the surface of the viewer is a grid of
    [300] rows of [300] finite values, all between the value at
    [(0.1, 0.1)] and the value at [(10, 10)], and every contour level lies
    strictly between these two: no level falls outside the surface. *)
Theorem viewer_levels_within_surface (alpha beta : R) :
  0 < alpha -> 0 < beta ->
  let lo := Rpower (1 / 10) alpha * Rpower (1 / 10) beta in
  let hi := Rpower 10 alpha * Rpower 10 beta in
  List.length (Viewer.U alpha beta) = 300%nat
  /\ Forall (fun row =>
               List.length row = 300%nat
               /\ Forall (fun e => exists r, e = Np.Fin r /\ lo <= r <= hi)
                         row)
            (Viewer.U alpha beta)
  /\ exists levels,
       Viewer.U_levels alpha beta = Some levels
       /\ Forall (fun e => exists r, e = Np.Fin r /\ lo < r < hi) levels.
Proof.
  intros Halpha Hbeta lo hi.
  assert (Hgrid : Forall (fun x => 1 / 10 <= x <= 10) Viewer.grid).
  { apply linspace_bounds; lra. }
  rewrite Forall_forall in Hgrid.
  split; [| split].
  - unfold Viewer.U. rewrite length_map. apply linspace_length.
  - apply Forall_forall. intros row Hrow. unfold Viewer.U in Hrow.
    apply in_map_iff in Hrow. destruct Hrow as (Y & <- & HY).
    split; [rewrite length_map; apply linspace_length |].
    apply Forall_forall. intros e He.
    apply in_map_iff in He. destruct He as (X & <- & HX).
    pose proof (Hgrid X HX) as HXr. pose proof (Hgrid Y HY) as HYr.
    exists (Rpower X alpha * Rpower Y beta). split.
    + rewrite !np_pow_pos_base by lra. reflexivity.
    + apply utility_between; try assumption; lra.
  - eexists. split; [apply U_levels_eq |].
    cbn [map]. repeat constructor;
      (eexists; split; [reflexivity |];
       apply utility_strictly_between; try assumption; lra).
Qed.

Lemma viewer_levels_within_surface_witness :
  let lo := Rpower (1 / 10) 1 * Rpower (1 / 10) 2 in
  let hi := Rpower 10 1 * Rpower 10 2 in
  List.length (Viewer.U 1 2) = 300%nat
  /\ Forall (fun row =>
               List.length row = 300%nat
               /\ Forall (fun e => exists r, e = Np.Fin r /\ lo <= r <= hi)
                         row)
            (Viewer.U 1 2)
  /\ exists levels,
       Viewer.U_levels 1 2 = Some levels
       /\ Forall (fun e => exists r, e = Np.Fin r /\ lo < r < hi) levels.
Proof. apply (viewer_levels_within_surface 1 2); lra. Defined.

(** ** The chart: errors *)

Lemma div_raises_iff (a b : R) : Py.div a b = None <-> b = 0.
Proof.
  unfold Py.div. destruct (Req_dec_T b 0) as [E | N].
  - split; [intros _; exact E | reflexivity].
  - split; [intro H; discriminate H | intro H; contradiction].
Qed.

(** X22.  The chart raises (a division by zero) exactly when a price is
    zero, or the Leontief branch is taken with [alpha] or [beta] zero, or
    the Cobb-Douglas branch is taken with [beta] zero; the Linear branch
    adds no error of its own. *)
Theorem plot_raises_iff
    (M px py alpha beta x_star y_star U_star : R)
    (utility_type status_flag : string) :
  plot_budget_and_ic M px py utility_type alpha beta
                     x_star y_star U_star status_flag = None
  <-> px = 0 \/ py = 0
      \/ (prefix "Linear" utility_type = false
          /\ prefix "Leontief" utility_type = true
          /\ (alpha = 0 \/ beta = 0))
      \/ (prefix "Linear" utility_type = false
          /\ prefix "Leontief" utility_type = false
          /\ beta = 0).
Proof.
  destruct (Req_dec_T px 0) as [Epx | Npx].
  { split; [intros _; left; exact Epx |].
    intros _. unfold plot_budget_and_ic.
    apply (div_raises_iff M) in Epx. rewrite Epx. reflexivity. }
  destruct (Req_dec_T py 0) as [Epy | Npy].
  { split; [intros _; right; left; exact Epy |].
    intros _. unfold plot_budget_and_ic.
    rewrite (div_nonzero M px Npx). cbn [Py.bind].
    apply (div_raises_iff M) in Epy. rewrite Epy. reflexivity. }
  rewrite plot_unfold by assumption.
  destruct (prefix "Linear" utility_type).
  - cbn [Py.bind Py.ret]. split; [intro H; discriminate H |].
    intros [C | [C | [(C & _) | (C & _)]]];
      try contradiction; discriminate C.
  - destruct (prefix "Leontief" utility_type).
    + unfold leontief_ic, Py.div.
      destruct (Req_dec_T alpha 0) as [Ea | Na]; cbn [Py.bind].
      { split; [| reflexivity]. intros _.
        right. right. left. repeat split. left. exact Ea. }
      destruct (Req_dec_T beta 0) as [Eb | Nb]; cbn [Py.bind Py.ret].
      { split; [| reflexivity]. intros _.
        right. right. left. repeat split. right. exact Eb. }
      split; [intro H; discriminate H |].
      intros [C | [C | [(_ & _ & [C | C]) | (_ & C & _)]]];
        try contradiction; discriminate C.
    + unfold cobb_douglas_ic, Py.div.
      destruct (Req_dec_T beta 0) as [Eb | Nb]; cbn [Py.bind Py.ret].
      { split; [| reflexivity]. intros _.
        right. right. right. repeat split. exact Eb. }
      split; [intro H; discriminate H |].
      intros [C | [C | [(_ & C & _) | (_ & _ & C)]]];
        try contradiction; discriminate C.
Qed.

(** The three entries of the select box start with one of the three names
    each, so the solver chosen by the main block and the curve chosen by
    the chart belong to one family. *)
Lemma utility_options_prefixes :
  map (fun s => (prefix "Cobb" s, prefix "Leontief" s, prefix "Linear" s))
      utility_options
  = [(false, false, true); (false, true, false); (true, false, false)].
Proof. reflexivity. Qed.
